(** * franz-go: broker error classification and version tables

    A shallow embedding of [pkg/kgo/errors.go] (the predicates
    [isRetriableBrokerErr], [isDialErr], [isSkippableBrokerErr] and the
    package's sentinel errors), of the part of Go's [errors], [net], [os],
    [context], [io] and [syscall] packages those predicates call into, and
    of the version table that [pkg/kversion/kversion_test.go] exercises. *)

From Stdlib Require Import ZArith List Ascii String Bool Lia.
From Stdlib Require Import DecimalString DecimalPos DecimalZ Sorted.
Import ListNotations.
Local Open Scope string_scope.

(** Induction over an error reaches the errors it wraps, through the
    [option] and [list] of its fields. *)
Scheme All for option.
Scheme All for list.

(** ** The Go error values the classifier inspects *)

Module goerrors.

(** Errors that are compared with [==] and carry no [Unwrap] method.
    A [*errors.errorString] is a pointer: two calls of [errors.New] with
    the same text give different errors, so the value records the address
    [p] it was allocated at next to its text. *)
Inductive value : Type :=
| errorString (p : nat) (s : string)   (* *errors.errorString, from errors.New *)
| deadlineExceededError                (* context.deadlineExceededError{} *)
| errNetClosing                        (* poll.errNetClosing{} *)
| Errno (n : Z).                       (* syscall.Errno *)

(** A non-nil [error]. [OpError] keeps the two string fields of
    [net.OpError] and its [Err]; [Source] and [Addr] play no part in any
    method modelled here. [joinError] stands for every type whose
    [Unwrap] returns a slice ([errors.Join], [fmt.Errorf] with several
    [%w]); [Custom] for any other error type: [temporary] is [Some b] when
    the type has a [Temporary() bool] method returning [b], [accepts] lists the
    targets its [Is] method accepts (empty when it has none) and [unwrap]
    is what its [Unwrap() error] returns (nil when it has none). *)
Inductive err : Type :=
| Val (v : value)
| SyscallError (Syscall : string) (Err : option err)   (* *os.SyscallError *)
| OpError (Op Net : string) (Err : option err)         (* *net.OpError *)
| wrapError (msg : string) (Err : option err)          (* *fmt.wrapError *)
| joinError (errs : list err)                          (* Unwrap() []error *)
| Custom (temporary : option bool) (accepts : list value) (unwrap : option err).

(** The interface type [error]: [None] is nil. *)
Definition error : Type := option err.

(** [err == target] for the comparable error values. *)
Definition same (a b : value) : bool :=
  match a, b with
  | errorString p _, errorString q _ => Nat.eqb p q
  | deadlineExceededError, deadlineExceededError => true
  | errNetClosing, errNetClosing => true
  | Errno n, Errno m => Z.eqb n m
  | _, _ => false
  end.

(** One step of the loop of [errors.Is]: [err == target], or [err] has an
    [Is] method that accepts [target]. None of the targets used by the
    classifier is one that [syscall.Errno.Is] accepts, and the wrappers
    are freshly allocated pointers, never equal to a target. *)
Definition matches (target : value) (e : err) : bool :=
  match e with
  | Val v => same v target
  | Custom _ accepts _ => existsb (same target) accepts
  | _ => false
  end.

(** [errors.Is(err, target)] on a non-nil [err]: pre-order walk of the
    tree that [Unwrap] spans. *)
Fixpoint is_ (target : value) (e : err) : bool :=
  matches target e ||
  match e with
  | Val _ => false
  | SyscallError _ x | OpError _ _ x | wrapError _ x | Custom _ _ x =>
      match x with Some x' => is_ target x' | None => false end
  | joinError errs => existsb (is_ target) errs
  end.

Definition Is (e : error) (target : value) : bool :=
  match e with
  | None => false
  | Some e' => is_ target e'
  end.

(** [errors.As] on a non-nil [err]: the first error of the pre-order walk
    whose dynamic type is assignable to the target type, given here as the
    predicate [assignable]. No type above has an [As] method. *)
Fixpoint as_ (assignable : err -> bool) (e : err) : option err :=
  if assignable e then Some e else
  match e with
  | Val _ => None
  | SyscallError _ x | OpError _ _ x | wrapError _ x | Custom _ _ x =>
      match x with Some x' => as_ assignable x' | None => None end
  | joinError errs =>
      (fix first (l : list err) : option err :=
         match l with
         | [] => None
         | x :: r => match as_ assignable x with
                     | Some y => Some y
                     | None => first r
                     end
         end) errs
  end.

Definition As (e : error) (assignable : err -> bool) : option err :=
  match e with
  | None => None
  | Some e' => as_ assignable e'
  end.

(** Target types of the three [errors.As] calls of the classifier. *)
Definition isSyscallError (e : err) : bool :=
  match e with SyscallError _ _ => true | _ => false end.

Definition isOpError (e : err) : bool :=
  match e with OpError _ _ _ => true | _ => false end.

(** [syscall] error numbers (linux) that the methods below test for. *)
Definition EINTR : Z := 4.
Definition EAGAIN : Z := 11.
Definition ENFILE : Z := 23.
Definition EMFILE : Z := 24.
Definition ECONNABORTED : Z := 103.
Definition ECONNRESET : Z := 104.
Definition ECONNREFUSED : Z := 111.
Definition ETIMEDOUT : Z := 110.

(** [func (e Errno) Timeout() bool] ([EWOULDBLOCK] is [EAGAIN]). *)
Definition Errno_Timeout (n : Z) : bool :=
  Z.eqb n EAGAIN || Z.eqb n ETIMEDOUT.

(** [func (e Errno) Temporary() bool]. *)
Definition Errno_Temporary (n : Z) : bool :=
  Z.eqb n EINTR || Z.eqb n EMFILE || Z.eqb n ENFILE || Errno_Timeout n.

(** [net.isConnError]. *)
Definition isConnError (e : error) : bool :=
  match e with
  | Some (Val (Errno n)) => Z.eqb n ECONNRESET || Z.eqb n ECONNABORTED
  | _ => false
  end.

(** The [Temporary() bool] method of the dynamic type of [e]: [None] when
    the type has no such method, that is when [e] is not assignable to
    [interface{ Temporary() bool }]. The [OpError] case is
    [func (e *OpError) Temporary() bool] of package [net]. *)
Fixpoint Temporary (e : err) : option bool :=
  match e with
  | Val (errorString _ _) => None
  | Val deadlineExceededError => Some true
  | Val errNetClosing => Some false
  | Val (Errno n) => Some (Errno_Temporary n)
  | SyscallError _ _ => None
  | OpError Op _ Err =>
      Some (if (Op =? "accept") && isConnError Err then true
            else match Err with
                 | Some (SyscallError _ ne) =>
                     match ne with
                     | Some t => match Temporary t with
                                 | Some b => b
                                 | None => false
                                 end
                     | None => false
                     end
                 | Some t => match Temporary t with
                             | Some b => b
                             | None => false
                             end
                 | None => false
                 end)
  | wrapError _ _ => None
  | joinError _ => None
  | Custom temporary _ _ => temporary
  end.

Definition hasTemporary (e : err) : bool :=
  match Temporary e with Some _ => true | None => false end.

(** Errors built without [errors.Join] and without an [Is] method of
    their own: a single line of [Unwrap() error] steps. *)
Fixpoint chain (e : err) : bool :=
  match e with
  | Val _ => true
  | SyscallError _ x | OpError _ _ x | wrapError _ x =>
      match x with Some x' => chain x' | None => true end
  | joinError _ => false
  | Custom _ accepts x =>
      match accepts with
      | [] => match x with Some x' => chain x' | None => true end
      | _ :: _ => false
      end
  end.

(** [fmt.Errorf] with one [%w], applied once per message of [msgs], the
    first message outermost. *)
Fixpoint wrapped (msgs : list string) (e : err) : err :=
  match msgs with
  | [] => e
  | m :: r => wrapError m (Some (wrapped r e))
  end.

(** An error type with an [Error] method and nothing else. *)
Definition errorOnly : err := Custom None [] None.

(** The [%d] verb of [fmt] on an integer: its decimal digits, after a
    minus sign when it is negative. *)
Definition fmt_d (z : Z) : string := NilZero.string_of_int (Z.to_int z).

(** Strings with no space in them. *)
Fixpoint spaceless (s : string) : bool :=
  match s with
  | EmptyString => true
  | String c r => negb (Ascii.eqb c " "%char) && spaceless r
  end.

(** Sentinels of the standard library. *)
Definition io_EOF : value := errorString 1 "EOF".
Definition context_Canceled : value := errorString 2 "context canceled".
Definition context_DeadlineExceeded : value := deadlineExceededError.
Definition net_ErrClosed : value := errNetClosing.

End goerrors.

(** ** pkg/kgo/errors.go *)

Module kgo.
Import goerrors.

(** The package's sentinel errors, each allocated once by [errors.New]. *)
Definition errUnknownBroker : value := errorString 10 "unknown broker".
Definition errChosenBrokerDead : value :=
  errorString 11 "the internal broker struct chosen to issue this request has died--either the broker id is migrating or no longer exists".
Definition errSaslReauthLoop : value :=
  errorString 12 "the broker is repeatedly giving us sasl lifetimes that are too short to write a request".
Definition errProducerIDLoadFail : value :=
  errorString 13 "unable to initialize a producer ID due to request failures".
Definition errCorrelationIDMismatch : value := errorString 14 "correlation ID mismatch".
Definition errUnknownRequestKey : value := errorString 15 "request key is unknown".
Definition errBrokerTooOld : value :=
  errorString 16 "broker is too old; the broker has already indicated it will not know how to handle the request".
Definition errNotGroup : value :=
  errorString 17 "invalid group function call when not assigned a group".
Definition errNotTransactional : value :=
  errorString 18 "invalid attempt to begin a transaction with a non-transactional client".
Definition errNotInTransaction : value :=
  errorString 19 "cannot produce record transactionally if not in a transaction".
Definition errPurged : value := errorString 20 "topic purged while buffered".
Definition ErrRecordTimeout : value :=
  errorString 21 "records have timed out before they were able to be produced".
Definition ErrRecordRetries : value :=
  errorString 22 "record failed after being retried too many times".
Definition ErrMaxBuffered : value :=
  errorString 23 "the maximum amount of records are buffered, cannot buffer more".
Definition ErrAborting : value := errorString 24 "client is aborting buffered records".
Definition ErrClientClosed : value := errorString 25 "client closed".

(** Modelled from the spec: [isNetClosedErr] is declared in a file of the
    package that is not part of the sources at hand; section 4.2 gives it
    as "chain contains network connection closed", which is
    [errors.Is(err, net.ErrClosed)]. *)
Definition isNetClosedErr (err : error) : bool := Is err net_ErrClosed.

(** [func isDialErr(err error) bool] *)
Definition isDialErr (err : error) : bool :=
  match As err isOpError with
  | Some (OpError Op _ _) => Op =? "dial"
  | _ => false
  end.

(** [func isRetriableBrokerErr(err error) bool] *)
Definition isRetriableBrokerErr (err : error) : bool :=
  match err with
  | None => false
  | Some _ =>
      match As err isSyscallError with
      | Some _ => negb (isDialErr err)
      | None =>
          if isNetClosedErr err || Is err io_EOF then true
          else if Is err errProducerIDLoadFail then true
          else if Is err errChosenBrokerDead then true
          else if Is err errSaslReauthLoop then true
          else if Is err errCorrelationIDMismatch then true
          else match As err hasTemporary with
               | Some tempErr =>
                   match Temporary tempErr with
                   | Some b => b
                   | None => false
                   end
               | None => false
               end
      end
  end.

(** [func isSkippableBrokerErr(err error) bool] *)
Definition isSkippableBrokerErr (err : error) : bool :=
  if Is err errUnknownBroker then true
  else
    match As err isOpError with
    | Some _ =>
        if negb (Is err context_Canceled)
           && negb (Is err context_DeadlineExceeded)
        then true
        else false
    | None => false
    end.

(** [type ErrDataLoss struct] *)
Record ErrDataLoss : Type := {
  Topic : string;
  Partition : Z;      (* int32 *)
  ConsumedTo : Z;     (* int64 *)
  ResetTo : Z         (* int64 *)
}.

(** [func (e *ErrDataLoss) Error() string] *)
Definition ErrDataLoss_Error (e : ErrDataLoss) : string :=
  "topic " ++ Topic e ++ " partition " ++ fmt_d (Partition e)
  ++ " lost records;" ++ " the client consumed to offset "
  ++ fmt_d (ConsumedTo e) ++ " but was reset to offset " ++ fmt_d (ResetTo e).

(** [type errUnknownController struct] *)
Record errUnknownController : Type := { id : Z (* int32 *) }.

(** [func (e *errUnknownController) Error() string] *)
Definition errUnknownController_Error (e : errUnknownController) : string :=
  "Kafka replied that the controller broker is " ++ fmt_d (id e) ++ ","
  ++ " but did not reply with that broker in the broker list".

(** [coordinatorKey] is declared in another file of the package; the two
    fields are the ones [errUnknownCoordinator.Error] reads, [name] with
    [%s] and [typ] with [%d]. *)
Record coordinatorKey : Type := { name : string; typ : Z (* int8 *) }.

(** [type errUnknownCoordinator struct] *)
Record errUnknownCoordinator : Type := {
  coordinator : Z;    (* int32 *)
  key : coordinatorKey
}.

Section Coordinator.

(** The constants of the [switch] are declared with [coordinatorKey]. *)
Variables coordinatorTypeGroup coordinatorTypeTxn : Z.

(** [func (e *errUnknownCoordinator) Error() string] *)
Definition errUnknownCoordinator_Error (e : errUnknownCoordinator) : string :=
  if Z.eqb (typ (key e)) coordinatorTypeGroup then
    "Kafka replied that group " ++ name (key e) ++ " has broker coordinator "
    ++ fmt_d (coordinator e) ++ ","
    ++ " but did not reply with that broker in the broker list"
  else if Z.eqb (typ (key e)) coordinatorTypeTxn then
    "Kafka replied that txn id " ++ name (key e) ++ " has broker coordinator "
    ++ fmt_d (coordinator e) ++ ","
    ++ " but did not reply with that broker in the broker list"
  else
    "Kafka replied to an unknown coordinator key " ++ name (key e)
    ++ " (type " ++ fmt_d (typ (key e)) ++ ") that it has a broker coordinator "
    ++ fmt_d (coordinator e) ++ ","
    ++ " but did not reply with that broker in the broker list".

End Coordinator.

(** The three struct types above as [error] values: pointers to structs
    whose only method is [Error]. *)
Definition ErrDataLoss_error (e : ErrDataLoss) : err := errorOnly.
Definition errUnknownController_error (e : errUnknownController) : err :=
  errorOnly.
Definition errUnknownCoordinator_error (e : errUnknownCoordinator) : err :=
  errorOnly.

(** *** Errors the connection layer produces, used as examples below *)

(** A dial that ran into the deadline of the caller's context:
    [&net.OpError{Op: "dial", Net: "tcp", Err: context.DeadlineExceeded}]. *)
Definition dial_deadline : error :=
  Some (OpError "dial" "tcp" (Some (Val context_DeadlineExceeded))).

(** A refused connection: [dial tcp: connect: connection refused]. *)
Definition dial_refused : error :=
  Some (OpError "dial" "tcp"
          (Some (SyscallError "connect" (Some (Val (Errno ECONNREFUSED)))))).

(** [errors.Join(errUnknownBroker, context.Canceled)]. *)
Definition unknown_broker_and_canceled : error :=
  Some (joinError [Val errUnknownBroker; Val context_Canceled]).

(** An error type with an [Is] method of its own that accepts the
    unknown-broker sentinel, wrapped around the deadline-exceeded error. *)
Definition unknown_broker_like_deadline : error :=
  Some (Custom None [errUnknownBroker] (Some (Val context_DeadlineExceeded))).

(** The caller's deadline, reported through a read on the connection. *)
Definition read_deadline : error :=
  Some (OpError "read" "tcp" (Some (Val context_DeadlineExceeded))).

(** [read tcp: read: connection reset by peer]. *)
Definition read_reset : error :=
  Some (OpError "read" "tcp"
          (Some (SyscallError "read" (Some (Val (Errno ECONNRESET)))))).

End kgo.

(** ** pkg/kversion: the version table behind kversion_test.go *)

Module kversion.
Local Open Scope Z_scope.

(** Modelled from the spec: the type [Versions] (field [k2v]) lives in
    pkg/kversion/kversion.go, of which only the test file is at hand.
    Section 3 describes it as a dense sequence of integers indexed by
    request key, each entry the max supported version of the key or the
    sentinel -1, "not supported". *)
Definition Versions : Type := list Z.

(** Modelled from the spec: the entry of key [k]; a key past the end of
    the sequence is one the table does not support. *)
Definition lookup (vs : Versions) (k : nat) : Z := nth k vs (-1).

(** Modelled from the spec: [SetMaxKeyVersion] is missing with
    kversion.go. [set_max(key, version)] writes the entry of [key]; the
    sequence is dense, so a key past the end is reached by padding with
    -1 entries. *)
Definition SetMaxKeyVersion (k : nat) (v : Z) (vs : Versions) : Versions :=
  if Nat.ltb k (List.length vs)
  then (firstn k vs ++ v :: skipn (S k) vs)%list
  else (vs ++ repeat (-1) (k - List.length vs)%nat ++ [v])%list.

(** Modelled from the spec: trimming of trailing -1 entries, the first
    half of the missing [Equal] (section 4.1, "Equality"). *)
Fixpoint trim (vs : Versions) : Versions :=
  match vs with
  | [] => []
  | v :: r =>
      match trim r with
      | [] => if v =? -1 then [] else [v]
      | r' => v :: r'
      end
  end.

(** Modelled from the spec: the element-wise comparison, second half of
    the missing [Equal]. *)
Fixpoint elementwise (a b : list Z) : bool :=
  match a, b with
  | [], [] => true
  | x :: a', y :: b' => (x =? y) && elementwise a' b'
  | _, _ => false
  end.

(** Modelled from the spec: [Equal] is missing with kversion.go; "trim
    trailing -1s from both sides, then element-wise compare". *)
Definition Equal (a b : Versions) : bool := elementwise (trim a) (trim b).

(** Modelled from the spec: the three flags of section 4.1, missing with
    kversion.go. [matches_prefix]: every key the baseline supports has
    the same max version in the target; together with the absence of an
    extra this is the exact equality of rule 1. *)
Definition matches_prefix (t b : Versions) : bool :=
  forallb (fun k => if 0 <=? lookup b k then lookup t k =? lookup b k else true)
          (seq 0%nat (List.length b)).

(** Modelled from the spec: [has_extra], the target sets a version for a
    key the baseline does not recognise, or a version above the
    baseline's. *)
Definition has_extra (t b : Versions) : bool :=
  existsb (fun k => (0 <=? lookup t k) && (lookup b k <? lookup t k))
          (seq 0%nat (List.length t)).

(** Modelled from the spec: [missing], the target unsets a key the
    baseline requires. *)
Definition missing (t b : Versions) : bool :=
  existsb (fun k => (0 <=? lookup b k) && (lookup t k =? -1))
          (seq 0%nat (List.length b)).

Section Guess.

(** Modelled from the spec: the built-in tables ([V0_8_0], [V0_8_1], ...)
    are missing with kversion.go; they are taken as the list of named
    baselines, in ascending release order. *)
Variable baselines : list (string * Versions).

(** The newest baseline, last of the list. *)
Definition newest : Versions := snd (last baselines (""%string, [])).

(** Rules 3 and 5, for a target with an extra that a baseline does not
    have: it is "at least" the last baseline it was found to cover when
    the newest baseline does not know one of its versions either. *)
Definition custom (t : Versions) (covered : option string) : string :=
  match covered with
  | Some n =>
      if has_extra t newest
      then "unknown custom version at least " ++ n
      else "unknown custom version"
  | None => "unknown custom version"
  end.

(** Rules 2 and 4, for a target that misses a key of baseline [name] and
    has no extra over it: it lies between the last baseline it covers and
    this one, or below the oldest. *)
Definition short_of (covered : option string) (name : string) : string :=
  match covered with
  | Some n => "between " ++ n ++ " and " ++ name
  | None => "not even " ++ name
  end.

(** Modelled from the spec: the comparison of section 4.1 against each
    baseline in ascending order, [covered] being the name of the last
    baseline that the target was found to match with something more. A
    table that misses nothing of a baseline and has an extra over it
    matches it: with key 0 of [V0_8_0] raised to 100, scenario 1 of section
    8 and lines 18 to 21 of the test expect "at least v0.8.0". A table
    that misses a key and has an extra is a custom one and not below the
    oldest baseline: lines 22 to 25 of the test. *)
Fixpoint guess_from (t : Versions) (covered : option string)
    (bs : list (string * Versions)) : string :=
  match bs with
  | [] => custom t covered
  | (name, b) :: rest =>
      if Equal t b then name
      else if missing t b then
        if has_extra t b then custom t covered else short_of covered name
      else if has_extra t b then guess_from t (Some name) rest
      else "unknown custom version"
  end.

(** Modelled from the spec: [VersionGuess] is missing with kversion.go. *)
Definition VersionGuess (t : Versions) : string :=
  guess_from t None baselines.

End Guess.

(** Modelled from the spec: the entries of a table are versions or -1
    (section 3). *)
Definition well_formed (t : Versions) : Prop := Forall (fun v => -1 <= v) t.



(** Tables to run the guess on, shaped as the tests relate the first four
    baselines: [V0_8_1] is [V0_8_0] with keys 8 and 9; [V0_10_0] is
    [V0_9_0] with keys 0, 1, 3 and 6 raised to 2, 2, 1 and 2 and keys 17
    and 18 added at version 0. *)
Definition example_V0_8_0 : Versions := repeat 0 8.
Definition example_V0_8_1 : Versions := repeat 0 10.
Definition example_V0_9_0 : Versions :=
  [1; 1; 0; 0; 0; 0; 0; 0; 2; 1; 0; 0; 0; 0; 0; 0; 0].
Definition example_V0_10_0 : Versions :=
  [2; 2; 0; 1; 0; 0; 2; 0; 2; 1; 0; 0; 0; 0; 0; 0; 0; 0; 0].
Definition example_baselines : list (string * Versions) :=
  [("v0.8.0"%string, example_V0_8_0); ("v0.8.1"%string, example_V0_8_1);
   ("v0.9.0"%string, example_V0_9_0); ("v0.10.0"%string, example_V0_10_0)].

End kversion.

Import goerrors kgo.

(** * Properties of the error classifier *)

Section Classifier.

Local Ltac classify := unfold isRetriableBrokerErr, isSkippableBrokerErr.

(** On a line of wrappers, two targets that are both found are found at
    the same value, the one the line ends in. *)
Lemma chain_is_same (t1 t2 : value) (e : err) :
  chain e = true -> is_ t1 e = true -> is_ t2 e = true ->
  exists v, same v t1 = true /\ same v t2 = true.
Proof.
  induction e as [v | s x IH | op n x IH | m x IH | errs _ | t acc x IH];
    simpl; intros Hc H1 H2; try discriminate.
  - exists v. rewrite orb_false_r in H1, H2. split; assumption.
  - destruct IH as [x' IH | ]; [ | discriminate ]. auto.
  - destruct IH as [x' IH | ]; [ | discriminate ]. auto.
  - destruct IH as [x' IH | ]; [ | discriminate ]. auto.
  - destruct acc; [ | discriminate ]. simpl in H1, H2.
    destruct IH as [x' IH | ]; [ | discriminate ]. auto.
Qed.

(** A target is only ever found in a non-nil error. *)
Lemma Is_true_not_nil (e : error) (target : value) :
  Is e target = true -> exists e', e = Some e'.
Proof. destruct e as [e' | ]; [ eauto | discriminate ]. Qed.

(** [isDialErr] holds only when [errors.As] finds a [*net.OpError]. *)
Lemma isDialErr_As (e : error) :
  isDialErr e = true -> exists ne, As e isOpError = Some ne.
Proof.
  unfold isDialErr. destruct (As e isOpError) as [ne | ]; [ eauto | discriminate ].
Qed.

(** Once a [*os.SyscallError] is found, the answer is [!isDialErr(err)]. *)
Lemma retriable_syscall (e : error) (se : err) :
  As e isSyscallError = Some se ->
  isRetriableBrokerErr e = negb (isDialErr e).
Proof.
  intros H. classify. destruct e as [e' | ]; [ | discriminate ].
  rewrite H. reflexivity.
Qed.

(** [errors.As] stops at the first [*net.OpError]: a dial error wrapped
    in the error of another operation is not a dial error. *)
Remark isDialErr_first_OpError :
  isDialErr (Some (OpError "read" "tcp" dial_refused)) = false /\
  isRetriableBrokerErr (Some (OpError "read" "tcp" dial_refused)) = true.
Proof. split; reflexivity. Qed.

(** [isSkippableBrokerErr] as one boolean expression. *)
Lemma skippable_unfold (e : error) :
  isSkippableBrokerErr e =
    Is e errUnknownBroker
    || (match As e isOpError with Some _ => true | None => false end
        && negb (Is e context_Canceled || Is e context_DeadlineExceeded)).
Proof.
  classify. destruct (Is e errUnknownBroker); [ reflexivity | ].
  destruct (As e isOpError); [ | reflexivity ].
  destruct (Is e context_Canceled), (Is e context_DeadlineExceeded);
    reflexivity.
Qed.

(** C1, as stated, fails: [&net.OpError{Op: "dial", Err:
    context.DeadlineExceeded}] is a dial error, yet it is retriable on the
    same broker (its [Temporary] method answers true) and it is not
    skippable (the context check rejects it). *)
Lemma dial_deadline_retriable_unskippable :
  isDialErr dial_deadline = true /\
  isRetriableBrokerErr dial_deadline = true /\
  isSkippableBrokerErr dial_deadline = false.
Proof. repeat split; reflexivity. Qed.

(** C1, amended: for every dial error [e], [isRetriableBrokerErr e] is
    false as soon as the chain of [e] holds an [*os.SyscallError], and
    [isSkippableBrokerErr e] is true exactly when [e] is the unknown-broker
    sentinel or holds neither [context.Canceled] nor
    [context.DeadlineExceeded]. *)
Theorem dial_error_classification (e : error) :
  isDialErr e = true ->
  ((exists se, As e isSyscallError = Some se) ->
   isRetriableBrokerErr e = false) /\
  isSkippableBrokerErr e =
    Is e errUnknownBroker
    || negb (Is e context_Canceled || Is e context_DeadlineExceeded).
Proof.
  intros Hdial. split.
  - intros [se Hse]. rewrite (retriable_syscall e se Hse), Hdial. reflexivity.
  - destruct (isDialErr_As e Hdial) as [ne Hne].
    rewrite skippable_unfold, Hne. reflexivity.
Qed.

Lemma dial_error_classification_witness :
  isDialErr dial_refused = true /\
  isRetriableBrokerErr dial_refused = false /\
  isSkippableBrokerErr dial_refused = true.
Proof.
  destruct (dial_error_classification dial_refused eq_refl) as [Hr Hs].
  split; [ reflexivity | split ].
  - apply Hr. eexists. reflexivity.
  - rewrite Hs. reflexivity.
Defined.

(** C2, as stated, fails: the joined error holds [context.Canceled], and
    the check for the unknown-broker sentinel, which comes first, makes it
    skippable. *)
Lemma canceled_yet_skippable :
  Is unknown_broker_and_canceled context_Canceled = true /\
  isSkippableBrokerErr unknown_broker_and_canceled = true.
Proof. split; reflexivity. Qed.

(** The same happens without [errors.Join], through an [Is] method. *)
Lemma deadline_yet_skippable :
  Is unknown_broker_like_deadline context_DeadlineExceeded = true /\
  isSkippableBrokerErr unknown_broker_like_deadline = true.
Proof. split; reflexivity. Qed.

(** C2, amended: every error whose chain holds [context.Canceled] or
    [context.DeadlineExceeded] and does not match the unknown-broker
    sentinel is not skippable. *)
Theorem context_error_not_skippable (e : error) :
  Is e context_Canceled || Is e context_DeadlineExceeded = true ->
  Is e errUnknownBroker = false ->
  isSkippableBrokerErr e = false.
Proof.
  intros Hctx Hunk. rewrite skippable_unfold, Hunk, Hctx.
  apply andb_false_r.
Qed.

Lemma context_error_not_skippable_witness :
  isSkippableBrokerErr read_deadline = false.
Proof.
  apply context_error_not_skippable; reflexivity.
Defined.

(** On a line of wrappers with no [Is] method in it, the condition on the
    unknown-broker sentinel of the amended C2 always holds: there the
    context errors are never skippable. *)
Lemma context_error_not_skippable_chain (e : err) :
  chain e = true ->
  Is (Some e) context_Canceled || Is (Some e) context_DeadlineExceeded = true ->
  isSkippableBrokerErr (Some e) = false.
Proof.
  intros Hc Hctx. rewrite skippable_unfold, Hctx, andb_false_r, orb_false_r.
  destruct (Is (Some e) errUnknownBroker) eqn:Hunk; [ exfalso | reflexivity ].
  simpl in Hctx, Hunk. apply orb_true_iff in Hctx. destruct Hctx as [H | H];
    destruct (chain_is_same _ _ e Hc H Hunk) as [v [Hv1 Hv2]];
    destruct v; simpl in Hv1, Hv2; try discriminate.
  apply Nat.eqb_eq in Hv1, Hv2. subst p. discriminate.
Qed.

(** C3: every error whose chain holds an [*os.SyscallError] and that is
    not a dial error is retriable on the same broker, whatever a
    [Temporary] method found in the chain would have answered: the
    syscall check comes before the temporary check. *)
Theorem syscall_error_retriable (e : error) :
  (exists se, As e isSyscallError = Some se) ->
  isDialErr e = false ->
  isRetriableBrokerErr e = true.
Proof.
  intros [se Hse] Hdial.
  rewrite (retriable_syscall e se Hse), Hdial. reflexivity.
Qed.

(** An instance: a connection reset, whose first [Temporary] method, the
    one of [*net.OpError], answers false. *)
Lemma syscall_error_retriable_witness :
  (exists t, As read_reset hasTemporary = Some t /\ Temporary t = Some false)
  /\ isRetriableBrokerErr read_reset = true.
Proof.
  split.
  - eexists. split; reflexivity.
  - apply syscall_error_retriable; [ eexists | ]; reflexivity.
Defined.

(** C4: every error that matches [errProducerIDLoadFail],
    [errChosenBrokerDead], [errSaslReauthLoop] or
    [errCorrelationIDMismatch], and whose chain holds no
    [*os.SyscallError], is retriable on the same broker. *)
Theorem sentinel_error_retriable (e : error) (target : value) :
  In target [errProducerIDLoadFail; errChosenBrokerDead;
             errSaslReauthLoop; errCorrelationIDMismatch] ->
  Is e target = true ->
  As e isSyscallError = None ->
  isRetriableBrokerErr e = true.
Proof.
  intros Hin His Hsys. classify.
  destruct (Is_true_not_nil e target His) as [e' ->].
  rewrite Hsys.
  destruct (isNetClosedErr (Some e') || Is (Some e') io_EOF); [ reflexivity | ].
  simpl in Hin.
  destruct Hin as [<- | [<- | [<- | [<- | []]]]]; rewrite His;
    repeat match goal with
           | |- (if ?b then true else _) = true =>
               destruct b; [ reflexivity | ]
           end; reflexivity.
Qed.

Lemma sentinel_error_retriable_witness :
  isRetriableBrokerErr
    (Some (wrapError "metadata" (Some (Val errChosenBrokerDead)))) = true.
Proof.
  apply (sentinel_error_retriable _ errChosenBrokerDead);
    [ simpl; auto | reflexivity | reflexivity ].
Defined.

(** C5: [errBrokerTooOld] and [errUnknownRequestKey] are not retriable on
    the same broker. *)
Theorem too_old_and_unknown_key_not_retriable :
  isRetriableBrokerErr (Some (Val errBrokerTooOld)) = false /\
  isRetriableBrokerErr (Some (Val errUnknownRequestKey)) = false.
Proof. split; reflexivity. Qed.

(** C6: the nil error is not retriable. *)
Theorem nil_not_retriable : isRetriableBrokerErr None = false.
Proof. reflexivity. Qed.

(** C9: the nil error is not skippable; it is neither the unknown-broker
    sentinel nor a [*net.OpError]. *)
Theorem nil_not_skippable :
  isSkippableBrokerErr None = false /\
  Is None errUnknownBroker = false /\ As None isOpError = None.
Proof. repeat split. Qed.

(** C10: [ErrClientClosed] is neither retriable on the same broker nor
    skippable to another one. *)
Theorem client_closed_not_retriable_not_skippable :
  isRetriableBrokerErr (Some (Val ErrClientClosed)) = false /\
  isSkippableBrokerErr (Some (Val ErrClientClosed)) = false.
Proof. split; reflexivity. Qed.

End Classifier.

(** * Properties of the version table *)

Import kversion.

Section VersionTable.

Local Open Scope Z_scope.
Local Open Scope list_scope.

Lemma elementwise_eq (a b : list Z) : elementwise a b = true <-> a = b.
Proof.
  revert b. induction a as [ | x a IH]; intros [ | y b]; simpl;
    try (split; [ discriminate | discriminate ]); [ tauto | ].
  rewrite andb_true_iff, Z.eqb_eq, IH. split.
  - intros [-> ->]. reflexivity.
  - intros H. injection H as -> ->. auto.
Qed.

Lemma elementwise_sym (a b : list Z) : elementwise a b = elementwise b a.
Proof.
  revert b. induction a as [ | x a IH]; intros [ | y b]; simpl; try reflexivity.
  rewrite IH, Z.eqb_sym. reflexivity.
Qed.

Lemma trim_unset (n : nat) : trim (repeat (-1) n) = [].
Proof. induction n as [ | n IH]; simpl; [ | rewrite IH ]; reflexivity. Qed.

(** Entries -1 appended at the end are trimmed away. *)
Lemma trim_app_unset (a : Versions) (n : nat) :
  trim (a ++ repeat (-1) n) = trim a.
Proof.
  induction a as [ | v a IH]; simpl.
  - apply trim_unset.
  - rewrite IH. reflexivity.
Qed.

(** What [trim] removes is a run of -1 entries at the end, and what it
    leaves does not end in -1. *)
Lemma trim_decompose (a : Versions) :
  (exists n, a = trim a ++ repeat (-1) n) /\ last (trim a) 0 <> -1.
Proof.
  induction a as [ | v a [[n Hn] Hl]]; simpl.
  - split; [ exists 0%nat; reflexivity | discriminate ].
  - destruct (trim a) as [ | w r] eqn:Ht.
    + destruct (Z.eqb_spec v (-1)) as [-> | Hv]; simpl.
      * split; [ exists (S n); rewrite Hn at 1; reflexivity | discriminate ].
      * split; [ exists n; rewrite Hn at 1; reflexivity | assumption ].
    + split; [ exists n; rewrite Hn at 1; reflexivity | exact Hl ].
Qed.

(** Unsetting a key past the end only appends -1 entries. *)
Lemma SetMaxKeyVersion_past_end (a : Versions) (j : nat) :
  SetMaxKeyVersion (List.length a + j) (-1) a = a ++ repeat (-1) (S j).
Proof.
  unfold SetMaxKeyVersion.
  replace (Nat.ltb (List.length a + j) (List.length a)) with false
    by (symmetry; apply Nat.ltb_ge; lia).
  replace (List.length a + j - List.length a)%nat with j by lia.
  f_equal. change [-1] with (repeat (-1) 1). rewrite <- repeat_app.
  f_equal. lia.
Qed.

Lemma lookup_trim (a : Versions) (k : nat) : lookup (trim a) k = lookup a k.
Proof.
  unfold lookup. revert k. induction a as [ | v a IH]; intros k; simpl.
  - reflexivity.
  - destruct (trim a) as [ | w r] eqn:Ht.
    + destruct (Z.eqb_spec v (-1)) as [-> | Hv]; destruct k as [ | k]; simpl;
        try reflexivity; rewrite <- IH; destruct k; reflexivity.
    + destruct k as [ | k]; simpl; [ reflexivity | apply IH ].
Qed.

Lemma Equal_refl (a : Versions) : Equal a a = true.
Proof. apply elementwise_eq. reflexivity. Qed.

Lemma Equal_sym (a b : Versions) : Equal a b = Equal b a.
Proof. apply elementwise_sym. Qed.

(** Equal tables support every key at the same version. *)
Lemma Equal_lookup (a b : Versions) (k : nat) :
  Equal a b = true -> lookup a k = lookup b k.
Proof.
  intros H. apply elementwise_eq in H.
  rewrite <- (lookup_trim a), <- (lookup_trim b), H. reflexivity.
Qed.

(** C7: [Equal] holds exactly when the two tables are the same once
    their trailing -1 entries are trimmed, whatever their lengths; it is
    symmetric; and unsetting a key past the end of either table, which
    appends -1 entries, does not change it. *)
Theorem Equal_trim_sym_trailing_unset (a b : Versions) :
  (Equal a b = true <-> trim a = trim b) /\
  Equal a b = Equal b a /\
  (forall j : nat,
     Equal (SetMaxKeyVersion (List.length a + j) (-1) a) b = Equal a b) /\
  (forall j : nat,
     Equal a (SetMaxKeyVersion (List.length b + j) (-1) b) = Equal a b).
Proof.
  split; [ apply elementwise_eq | ].
  split; [ apply Equal_sym | ].
  split; intros j; rewrite SetMaxKeyVersion_past_end; unfold Equal;
    rewrite trim_app_unset; reflexivity.
Qed.

(** TestEqual: [V0_8_1] backed down to [V0_8_0] by unsetting keys 8
    and 9 equals it, in both directions, and unsetting key 0 on one side
    only breaks the equality. *)
Remark Equal_backed_down :
  let r := SetMaxKeyVersion 9 (-1) (SetMaxKeyVersion 8 (-1) example_V0_8_1) in
  Equal example_V0_8_0 example_V0_8_1 = false /\
  Equal example_V0_8_0 r = true /\ Equal r example_V0_8_0 = true /\
  Equal (SetMaxKeyVersion 0 (-1) example_V0_8_0) r = false.
Proof. repeat split. Qed.

Lemma Equal_trim_sym_trailing_unset_witness :
  Equal (SetMaxKeyVersion 5 (-1) [3; 1; -1; 4]) [3; 1; -1; 4; -1] = true.
Proof.
  destruct (Equal_trim_sym_trailing_unset [3; 1; -1; 4] [3; 1; -1; 4; -1])
    as (Htrim & _ & Hleft & _).
  exact (eq_trans (Hleft 1%nat) (proj2 Htrim eq_refl)).
Defined.

Lemma lookup_lower_bound (t : Versions) (k : nat) :
  well_formed t -> -1 <= lookup t k.
Proof.
  intros Hwf. unfold lookup.
  destruct (nth_in_or_default k t (-1)) as [Hin | ->]; [ | lia ].
  unfold well_formed in Hwf. rewrite Forall_forall in Hwf. apply Hwf, Hin.
Qed.

(** A key past the end of a table is unset. *)
Lemma lookup_set_in_range (t : Versions) (k : nat) :
  lookup t k <> -1 -> (k < List.length t)%nat.
Proof.
  intros H. destruct (Nat.lt_ge_cases k (List.length t)) as [Hk | Hk];
    [ exact Hk | ].
  unfold lookup in H. rewrite nth_overflow in H by exact Hk. congruence.
Qed.

(** [has_extra] looks at the keys below the length of the target; the
    keys past it are unset and add nothing. *)
Lemma has_extra_iff (t b : Versions) :
  has_extra t b = true <->
  exists k : nat, 0 <= lookup t k /\ lookup b k < lookup t k.
Proof.
  unfold has_extra. rewrite existsb_exists. split.
  - intros [k [_ Hk]]. apply andb_true_iff in Hk. destruct Hk as [H1 H2].
    exists k. split; [ apply Z.leb_le, H1 | apply Z.ltb_lt, H2 ].
  - intros [k [H1 H2]]. exists k. split.
    + apply in_seq. split; [ lia | ]. apply lookup_set_in_range. lia.
    + apply andb_true_iff. split; [ apply Z.leb_le, H1 | apply Z.ltb_lt, H2 ].
Qed.







(** Without the order the first part fails: a baseline that differs from
    an older one by a trailing -1 only is guessed under the older name. *)
Remark baseline_guess_needs_order :
  VersionGuess [("v0.8.0"%string, [0]); ("v0.8.1"%string, [0; -1])] [0; -1]
  = "v0.8.0"%string.
Proof. reflexivity. Qed.






(** TestVersionGuess on the example tables: the steps of its first two
    blocks give the strings the test expects. *)
Remark TestVersionGuess_steps :
  let guess := VersionGuess example_baselines in
  let v1 := SetMaxKeyVersion 0 (-1) example_V0_8_0 in
  let v2 := SetMaxKeyVersion 0 100 v1 in
  let v3 := SetMaxKeyVersion 1 (-1) v2 in
  let w1 := SetMaxKeyVersion 17 0 example_V0_9_0 in
  let w2 := SetMaxKeyVersion 18 0 (SetMaxKeyVersion 6 2 (SetMaxKeyVersion 3 1
              (SetMaxKeyVersion 1 2 (SetMaxKeyVersion 0 2 w1)))) in
  guess example_V0_8_0 = "v0.8.0"%string /\
  guess v1 = "not even v0.8.0"%string /\
  guess v2 = "unknown custom version at least v0.8.0"%string /\
  guess v3 = "unknown custom version"%string /\
  guess example_V0_9_0 = "v0.9.0"%string /\
  guess w1 = "between v0.9.0 and v0.10.0"%string /\
  guess w2 = "v0.10.0"%string.
Proof. repeat split. Qed.

End VersionTable.

(** * More on the error classifier *)

Section Wrapping.

(** [errors.Is] and [errors.As] look through [fmt.Errorf] wrappers. *)
Lemma Is_wrapped (msgs : list string) (e : err) (target : value) :
  Is (Some (wrapped msgs e)) target = Is (Some e) target.
Proof.
  simpl. induction msgs as [ | m r IH]; simpl; [ reflexivity | exact IH ].
Qed.

Lemma As_wrapped (assignable : err -> bool) (msgs : list string) (e : err) :
  (forall m x, assignable (wrapError m x) = false) ->
  As (Some (wrapped msgs e)) assignable = As (Some e) assignable.
Proof.
  intros Hw. simpl. induction msgs as [ | m r IH]; simpl;
    [ reflexivity | rewrite Hw; exact IH ].
Qed.

Lemma As_wrapped_SyscallError (msgs : list string) (e : err) :
  As (Some (wrapped msgs e)) isSyscallError = As (Some e) isSyscallError.
Proof. apply As_wrapped. reflexivity. Qed.

Lemma As_wrapped_OpError (msgs : list string) (e : err) :
  As (Some (wrapped msgs e)) isOpError = As (Some e) isOpError.
Proof. apply As_wrapped. reflexivity. Qed.

Lemma As_wrapped_Temporary (msgs : list string) (e : err) :
  As (Some (wrapped msgs e)) hasTemporary = As (Some e) hasTemporary.
Proof. apply As_wrapped. reflexivity. Qed.

Lemma isDialErr_wrapped (msgs : list string) (e : err) :
  isDialErr (Some (wrapped msgs e)) = isDialErr (Some e).
Proof. unfold isDialErr. rewrite As_wrapped_OpError. reflexivity. Qed.

Lemma retriable_wrapped (msgs : list string) (e : err) :
  isRetriableBrokerErr (Some (wrapped msgs e)) = isRetriableBrokerErr (Some e).
Proof.
  unfold isRetriableBrokerErr, isNetClosedErr.
  rewrite As_wrapped_SyscallError, As_wrapped_Temporary, isDialErr_wrapped.
  rewrite !Is_wrapped. reflexivity.
Qed.

Lemma skippable_wrapped (msgs : list string) (e : err) :
  isSkippableBrokerErr (Some (wrapped msgs e)) = isSkippableBrokerErr (Some e).
Proof.
  unfold isSkippableBrokerErr.
  rewrite As_wrapped_OpError, !Is_wrapped. reflexivity.
Qed.

(** X1: wrapping an error with [fmt.Errorf] and [%w], any number of
    times, changes none of the three answers. *)
Theorem classification_ignores_wrapping (msgs : list string) (e : err) :
  isRetriableBrokerErr (Some (wrapped msgs e)) = isRetriableBrokerErr (Some e)
  /\ isSkippableBrokerErr (Some (wrapped msgs e))
     = isSkippableBrokerErr (Some e)
  /\ isDialErr (Some (wrapped msgs e)) = isDialErr (Some e).
Proof.
  split; [ apply retriable_wrapped | ].
  split; [ apply skippable_wrapped | apply isDialErr_wrapped ].
Qed.

(** X2: an error made by [errors.New], bare or wrapped, is retriable
    exactly when it is [io.EOF] or one of the four retriable sentinels,
    and skippable exactly when it is [errUnknownBroker]. *)
Theorem errors_New_classification (msgs : list string) (p : nat) (s : string) :
  let v := errorString p s in
  isRetriableBrokerErr (Some (wrapped msgs (Val v)))
    = existsb (same v) [io_EOF; errProducerIDLoadFail; errChosenBrokerDead;
                        errSaslReauthLoop; errCorrelationIDMismatch]
  /\ isSkippableBrokerErr (Some (wrapped msgs (Val v)))
     = same v errUnknownBroker.
Proof.
  intros v. rewrite retriable_wrapped, skippable_wrapped.
  unfold isRetriableBrokerErr, isSkippableBrokerErr, isNetClosedErr. simpl.
  rewrite !orb_false_r. split.
  - destruct (Nat.eqb p 1), (Nat.eqb p 13), (Nat.eqb p 11), (Nat.eqb p 12),
      (Nat.eqb p 14); reflexivity.
  - destruct (Nat.eqb p 10); reflexivity.
Qed.

(** X3: the other eleven sentinels of the package are neither retriable
    nor skippable, bare or wrapped. *)
Theorem other_sentinels_fail_the_caller (msgs : list string) (v : value) :
  In v [errUnknownRequestKey; errBrokerTooOld; errNotGroup;
        errNotTransactional; errNotInTransaction; errPurged;
        ErrRecordTimeout; ErrRecordRetries; ErrMaxBuffered; ErrAborting;
        ErrClientClosed] ->
  isRetriableBrokerErr (Some (wrapped msgs (Val v))) = false /\
  isSkippableBrokerErr (Some (wrapped msgs (Val v))) = false.
Proof.
  intros Hin. rewrite retriable_wrapped, skippable_wrapped.
  simpl in Hin.
  repeat (destruct Hin as [<- | Hin]; [ split; reflexivity | ]).
  destruct Hin.
Qed.

Lemma other_sentinels_fail_the_caller_witness :
  isRetriableBrokerErr
    (Some (wrapped ["produce"; "flush"] (Val ErrRecordTimeout))) = false /\
  isSkippableBrokerErr
    (Some (wrapped ["produce"; "flush"] (Val ErrRecordTimeout))) = false.
Proof.
  apply other_sentinels_fail_the_caller. simpl. tauto.
Defined.

(** X4: [*ErrDataLoss], [*errUnknownController] and
    [*errUnknownCoordinator] have no method but [Error]: whatever their
    fields, bare or wrapped, they are neither retriable nor skippable. *)
Theorem struct_errors_fail_the_caller (msgs : list string)
    (dl : ErrDataLoss) (uc : errUnknownController)
    (uk : errUnknownCoordinator) :
  Forall (fun e => isRetriableBrokerErr (Some (wrapped msgs e)) = false /\
                   isSkippableBrokerErr (Some (wrapped msgs e)) = false)
         [ErrDataLoss_error dl; errUnknownController_error uc;
          errUnknownCoordinator_error uk].
Proof.
  repeat (apply Forall_cons;
          [ rewrite retriable_wrapped, skippable_wrapped; split; reflexivity
          | ]).
  apply Forall_nil.
Qed.

End Wrapping.

Section Transport.

(** X5: an error in which a closed connection or [io.EOF] is found is
    retriable, unless an [*os.SyscallError] is found in it too and it is a
    dial error. *)
Theorem closed_or_eof_retriable (e : error) :
  isNetClosedErr e || Is e io_EOF = true ->
  isRetriableBrokerErr e =
    negb (match As e isSyscallError with
          | Some _ => isDialErr e
          | None => false
          end).
Proof.
  intros H. destruct e as [e' | ]; [ | discriminate ].
  unfold isRetriableBrokerErr.
  destruct (As (Some e') isSyscallError); [ reflexivity | ].
  rewrite H. reflexivity.
Qed.

Lemma closed_or_eof_retriable_witness :
  isRetriableBrokerErr (Some (wrapError "read" (Some (Val io_EOF)))) = true.
Proof.
  rewrite closed_or_eof_retriable; reflexivity.
Defined.

(** X6: the two answers overlap. An error in which both an
    [*os.SyscallError] and a [*net.OpError] are found, that is not a dial
    error and holds no context error, is retriable on the same broker and
    skippable to the next. *)
Theorem os_network_error_retriable_and_skippable (e : error) :
  (exists se, As e isSyscallError = Some se) ->
  (exists ne, As e isOpError = Some ne) ->
  isDialErr e = false ->
  Is e context_Canceled || Is e context_DeadlineExceeded = false ->
  isRetriableBrokerErr e = true /\ isSkippableBrokerErr e = true.
Proof.
  intros [se Hse] [ne Hne] Hdial Hctx. split.
  - rewrite (retriable_syscall e se Hse), Hdial. reflexivity.
  - rewrite skippable_unfold, Hne, Hctx. apply orb_true_r.
Qed.

Lemma os_network_error_retriable_and_skippable_witness :
  isRetriableBrokerErr read_reset = true /\
  isSkippableBrokerErr read_reset = true.
Proof.
  apply os_network_error_retriable_and_skippable;
    try (eexists; reflexivity); reflexivity.
Defined.

(** X7: for a [*net.OpError] around an error in which an
    [*os.SyscallError] is found, only [Op] decides: it is retriable
    exactly when [Op] is not "dial", whatever the error number, and also
    when a dial error is nested further in. *)
Theorem OpError_over_syscall_retriable_by_op (Op Net : string) (x : error) :
  (exists se, As x isSyscallError = Some se) ->
  isRetriableBrokerErr (Some (OpError Op Net x)) = negb (Op =? "dial").
Proof.
  intros [se Hse]. destruct x as [x' | ]; [ | discriminate ].
  rewrite (retriable_syscall _ se); [ reflexivity | exact Hse ].
Qed.

Lemma OpError_over_syscall_retriable_by_op_witness :
  isRetriableBrokerErr (Some (OpError "write" "tcp" dial_refused)) = true.
Proof.
  rewrite OpError_over_syscall_retriable_by_op;
    [ reflexivity | eexists; reflexivity ].
Defined.

(** X8: the caller's context error reported by a network operation, bare
    or wrapped, is never skippable; the deadline is retried on the same
    broker, whatever the operation, and the cancellation is not. *)
Theorem context_error_through_OpError (msgs : list string) (Op Net : string) :
  let deadline :=
    Some (wrapped msgs (OpError Op Net (Some (Val context_DeadlineExceeded)))) in
  let canceled :=
    Some (wrapped msgs (OpError Op Net (Some (Val context_Canceled)))) in
  (isRetriableBrokerErr deadline = true /\
   isSkippableBrokerErr deadline = false) /\
  (isRetriableBrokerErr canceled = false /\
   isSkippableBrokerErr canceled = false).
Proof.
  cbv zeta. rewrite !retriable_wrapped, !skippable_wrapped.
  unfold isRetriableBrokerErr, isSkippableBrokerErr, isNetClosedErr. simpl.
  rewrite !andb_false_r. repeat split.
Qed.

End Transport.

(** * The messages of the struct errors *)

Section Messages.

Lemma String_inj (c : Ascii.ascii) (a b : string) :
  String c a = String c b -> a = b.
Proof. intros H. injection H as H. exact H. Qed.

Lemma append_inj_l (p a b : string) : p ++ a = p ++ b -> a = b.
Proof.
  induction p as [ | c p IH]; simpl; intros H; [ exact H | ].
  apply IH. exact (String_inj _ _ _ H).
Qed.

Lemma length_append (a b : string) :
  String.length (a ++ b) = (String.length a + String.length b)%nat.
Proof. induction a as [ | c a IH]; simpl; [ | rewrite IH ]; reflexivity. Qed.

Lemma append_inj_r (a b s : string) : a ++ s = b ++ s -> a = b.
Proof.
  revert b. induction a as [ | c a IH]; intros [ | d b] H; simpl in H.
  - reflexivity.
  - apply (f_equal String.length) in H. simpl in H.
    rewrite length_append in H. lia.
  - apply (f_equal String.length) in H. simpl in H.
    rewrite length_append in H. lia.
  - injection H as -> H. f_equal. apply IH, H.
Qed.

(** Two strings that agree up to their first space agree on both sides
    of it. *)
Lemma split_at_space (a a' x x' : string) :
  spaceless a = true -> spaceless a' = true ->
  a ++ String " " x = a' ++ String " " x' -> a = a' /\ x = x'.
Proof.
  revert a'. induction a as [ | c a IH]; intros [ | c' a'] Ha Ha' H;
    simpl in *.
  - injection H as H. auto.
  - injection H as <- _. discriminate.
  - injection H as -> _. discriminate.
  - injection H as -> H.
    apply andb_true_iff in Ha, Ha'.
    destruct (IH a' (proj2 Ha) (proj2 Ha') H) as [-> ->]. auto.
Qed.

Lemma spaceless_uint (d : Decimal.uint) :
  spaceless (NilEmpty.string_of_uint d) = true.
Proof. induction d; simpl; auto. Qed.

(** [%d] prints digits and a sign only. *)
Lemma spaceless_fmt_d (z : Z) : spaceless (fmt_d z) = true.
Proof.
  unfold fmt_d. destruct z as [ | p | p]; simpl; [ reflexivity | | ].
  - destruct (Pos.to_uint p); try reflexivity; apply spaceless_uint.
  - destruct (Pos.to_uint p); try reflexivity; apply spaceless_uint.
Qed.

(** [%d] prints different integers differently. *)
Lemma fmt_d_inj (a b : Z) : fmt_d a = fmt_d b -> a = b.
Proof.
  unfold fmt_d. intros H.
  apply (f_equal NilZero.int_of_string) in H.
  assert (Hn : forall z, Z.to_int z <> Decimal.Pos Decimal.Nil /\
                         Z.to_int z <> Decimal.Neg Decimal.Nil).
  { intros [ | p | p]; simpl; split; try discriminate;
      intros E; injection E as E; exact (DecimalPos.Unsigned.to_uint_nonnil p E). }
  rewrite !NilZero.isi in H by apply Hn.
  injection H as H. exact (DecimalZ.to_int_inj _ _ H).
Qed.

Local Ltac strip H := repeat apply String_inj in H.

(** X9: the message of [errUnknownController] names the broker: two
    errors with the same message have the same [id]. *)
Theorem errUnknownController_Error_inj (e1 e2 : errUnknownController) :
  errUnknownController_Error e1 = errUnknownController_Error e2 -> e1 = e2.
Proof.
  destruct e1 as [i1], e2 as [i2]. unfold errUnknownController_Error.
  simpl. intros H. strip H. apply append_inj_r, fmt_d_inj in H.
  rewrite H. reflexivity.
Qed.

Lemma errUnknownController_Error_inj_witness :
  {| id := 3 |} = {| id := 3 |}.
Proof.
  apply errUnknownController_Error_inj. reflexivity.
Defined.

(** X10: the message of [errUnknownCoordinator] tells the case of the
    [switch] it was built in: two errors with the same message are both
    of the group type, both of the txn type, or both of neither. *)
Theorem errUnknownCoordinator_Error_kind
    (coordinatorTypeGroup coordinatorTypeTxn : Z)
    (e1 e2 : errUnknownCoordinator) :
  errUnknownCoordinator_Error coordinatorTypeGroup coordinatorTypeTxn e1
  = errUnknownCoordinator_Error coordinatorTypeGroup coordinatorTypeTxn e2 ->
  (typ (key e1) = coordinatorTypeGroup <-> typ (key e2) = coordinatorTypeGroup)
  /\ (typ (key e1) = coordinatorTypeTxn <-> typ (key e2) = coordinatorTypeTxn).
Proof.
  unfold errUnknownCoordinator_Error.
  destruct (Z.eqb_spec (typ (key e1)) coordinatorTypeGroup) as [G1 | G1];
    destruct (Z.eqb_spec (typ (key e2)) coordinatorTypeGroup) as [G2 | G2];
    try destruct (Z.eqb_spec (typ (key e1)) coordinatorTypeTxn) as [T1 | T1];
    try destruct (Z.eqb_spec (typ (key e2)) coordinatorTypeTxn) as [T2 | T2];
    simpl; intros H; try discriminate H; clear H;
    split; split; intros E; congruence.
Qed.

Lemma errUnknownCoordinator_Error_kind_witness :
  let e := {| coordinator := 2; key := {| name := "g"; typ := 0 |} |} in
  (typ (key e) = 0%Z <-> typ (key e) = 0%Z) /\
  (typ (key e) = 1%Z <-> typ (key e) = 1%Z).
Proof.
  intros e. apply (errUnknownCoordinator_Error_kind 0 1 e e). reflexivity.
Defined.

(** X11: for a given topic, the message of [ErrDataLoss] determines the
    partition and the two offsets. *)
Theorem ErrDataLoss_Error_inj (e1 e2 : ErrDataLoss) :
  Topic e1 = Topic e2 ->
  ErrDataLoss_Error e1 = ErrDataLoss_Error e2 -> e1 = e2.
Proof.
  destruct e1 as [t1 p1 c1 r1], e2 as [t2 p2 c2 r2].
  unfold ErrDataLoss_Error. simpl. intros <- H. strip H.
  apply append_inj_l in H. strip H.
  apply split_at_space in H; try apply spaceless_fmt_d.
  destruct H as [Hp H]. strip H.
  apply split_at_space in H; try apply spaceless_fmt_d.
  destruct H as [Hc H]. strip H.
  apply fmt_d_inj in Hp, Hc, H. subst. reflexivity.
Qed.

Lemma ErrDataLoss_Error_inj_witness :
  let e := {| Topic := "events"; Partition := 3;
              ConsumedTo := 100; ResetTo := 40 |} in
  e = e.
Proof.
  intros e. apply ErrDataLoss_Error_inj; reflexivity.
Defined.

End Messages.

(** * More on the version table *)

Section VersionTableKeys.

Local Open Scope Z_scope.
Local Open Scope list_scope.

(** What a table answers for key [j] after a write at key [k]. *)
Lemma lookup_set (k j : nat) (v : Z) (t : Versions) :
  lookup (SetMaxKeyVersion k v t) j = if Nat.eqb j k then v else lookup t j.
Proof.
  unfold lookup, SetMaxKeyVersion.
  destruct (Nat.ltb_spec k (List.length t)) as [Hk | Hk];
    destruct (Nat.eqb_spec j k) as [-> | Hjk].
  - rewrite app_nth2; rewrite length_firstn, Nat.min_l by lia; [ | lia ].
    rewrite Nat.sub_diag. reflexivity.
  - destruct (Nat.lt_ge_cases j k) as [Hlt | Hge].
    + rewrite app_nth1 by (rewrite length_firstn; lia).
      rewrite nth_firstn. apply Nat.ltb_lt in Hlt. rewrite Hlt. reflexivity.
    + rewrite app_nth2; rewrite length_firstn, Nat.min_l by lia; [ | lia ].
      replace (j - k)%nat with (S (j - k - 1)) by lia. cbn [nth].
      rewrite nth_skipn. f_equal. lia.
  - rewrite app_nth2 by lia. rewrite app_nth2; rewrite repeat_length; [ | lia ].
    replace (k - List.length t - (k - List.length t))%nat with 0%nat by lia.
    reflexivity.
  - destruct (Nat.lt_ge_cases j (List.length t)) as [Hlt | Hge].
    + apply app_nth1, Hlt.
    + rewrite app_nth2 by lia. rewrite (nth_overflow t) by lia.
      destruct (Nat.lt_ge_cases (j - List.length t) (k - List.length t))
        as [Hlt' | Hge'].
      * rewrite app_nth1 by (rewrite repeat_length; lia). apply nth_repeat.
      * rewrite app_nth2; rewrite repeat_length; [ | lia ].
        destruct (j - List.length t - (k - List.length t))%nat as [ | m] eqn:Hm;
          [ lia | ]. simpl. destruct m; reflexivity.
Qed.

(** A table that supports no key trims to the empty table. *)
Lemma trim_all_unset (b : Versions) :
  (forall k, lookup b k = -1) -> trim b = [].
Proof.
  unfold lookup. induction b as [ | v b IH]; intros H; simpl; [ reflexivity | ].
  rewrite IH by (intros k; exact (H (S k))).
  specialize (H 0%nat). simpl in H. rewrite H. reflexivity.
Qed.

(** Tables that answer alike for every key trim to the same table. *)
Lemma trim_ext (a b : Versions) :
  (forall k, lookup a k = lookup b k) -> trim a = trim b.
Proof.
  revert b. induction a as [ | v a IH]; intros b H.
  - simpl. symmetry. apply trim_all_unset. intros k. rewrite <- H.
    unfold lookup. destruct k; reflexivity.
  - destruct b as [ | w b].
    + rewrite (trim_all_unset (v :: a)); [ reflexivity | ].
      intros k. rewrite H. unfold lookup. destruct k; reflexivity.
    + pose proof (H 0%nat) as H0. unfold lookup in H0. simpl in H0. subst w.
      simpl. rewrite (IH b); [ reflexivity | ].
      intros k. exact (H (S k)).
Qed.

Lemma Equal_of_lookup (a b : Versions) :
  (forall k, lookup a k = lookup b k) -> Equal a b = true.
Proof. intros H. apply elementwise_eq, trim_ext, H. Qed.

(** X12: two tables are [Equal] exactly when they answer alike for every
    key, a key past the end of a table counting as unset. *)
Theorem Equal_iff_lookup (a b : Versions) :
  Equal a b = true <-> forall k : nat, lookup a k = lookup b k.
Proof.
  split.
  - intros H k. apply Equal_lookup, H.
  - apply Equal_of_lookup.
Qed.

Lemma Equal_iff_lookup_witness :
  lookup [2; 0; -1] 4 = lookup [2; 0; -1; -1; -1] 4.
Proof.
  apply (proj1 (Equal_iff_lookup [2; 0; -1] [2; 0; -1; -1; -1])). reflexivity.
Defined.

(** X13: [Equal] is reflexive and transitive. *)
Theorem Equal_refl_trans (a b c : Versions) :
  Equal a a = true /\
  (Equal a b = true -> Equal b c = true -> Equal a c = true).
Proof.
  split; [ apply Equal_refl | ].
  intros Hab Hbc. apply elementwise_eq in Hab, Hbc. apply elementwise_eq.
  congruence.
Qed.

Lemma Equal_refl_trans_witness :
  Equal [1; -1] [1; -1; -1; -1] = true.
Proof.
  apply (proj2 (Equal_refl_trans [1; -1] [1] [1; -1; -1; -1])); reflexivity.
Defined.

(** X14: a write of version [v] at key [k] is read back at [k] and
    leaves the answer for every other key as it was, also when [k] is
    past the end of the table. *)
Theorem SetMaxKeyVersion_lookup (k : nat) (v : Z) (t : Versions) :
  -1 <= v ->
  lookup (SetMaxKeyVersion k v t) k = v /\
  (forall j : nat, j <> k -> lookup (SetMaxKeyVersion k v t) j = lookup t j).
Proof.
  intros _. split.
  - rewrite lookup_set, Nat.eqb_refl. reflexivity.
  - intros j Hj. rewrite lookup_set.
    apply Nat.eqb_neq in Hj. rewrite Hj. reflexivity.
Qed.

Lemma SetMaxKeyVersion_lookup_witness :
  lookup (SetMaxKeyVersion 5 2 [0; 0]) 5 = 2 /\
  lookup (SetMaxKeyVersion 5 2 [0; 0]) 3 = -1.
Proof.
  destruct (SetMaxKeyVersion_lookup 5 2 [0; 0]) as [H1 H2]; [ lia | ].
  split; [ exact H1 | ]. rewrite H2; [ reflexivity | lia ].
Defined.

(** X15: TestEqual, in general. Unsetting a key that one of two equal
    tables supports makes them different; the same write on both sides
    keeps them equal; and unsetting a key and then writing its old version
    back gives a table equal to the first. *)
Theorem Equal_after_writes (a b : Versions) (k : nat) (v : Z) :
  Equal a b = true ->
  (0 <= lookup a k -> Equal (SetMaxKeyVersion k (-1) a) b = false) /\
  Equal (SetMaxKeyVersion k v a) (SetMaxKeyVersion k v b) = true /\
  Equal (SetMaxKeyVersion k (lookup a k) (SetMaxKeyVersion k (-1) a)) b = true.
Proof.
  intros Hab. split; [ | split ].
  - intros Hk.
    destruct (Equal (SetMaxKeyVersion k (-1) a) b) eqn:He; [ | reflexivity ].
    apply (Equal_lookup _ _ k) in He. rewrite lookup_set, Nat.eqb_refl in He.
    rewrite <- (Equal_lookup a b k Hab) in He. lia.
  - apply Equal_of_lookup. intros j. rewrite !lookup_set.
    rewrite (Equal_lookup a b j Hab). reflexivity.
  - apply Equal_of_lookup. intros j. rewrite !lookup_set.
    rewrite <- (Equal_lookup a b j Hab).
    destruct (Nat.eqb_spec j k) as [-> | Hj]; reflexivity.
Qed.

Lemma Equal_after_writes_witness :
  Equal (SetMaxKeyVersion 0 (-1) example_V0_8_0)
        (SetMaxKeyVersion 9 (-1) (SetMaxKeyVersion 8 (-1) example_V0_8_1))
  = false.
Proof.
  apply (Equal_after_writes example_V0_8_0 _ 0%nat 0); [ reflexivity | ].
  vm_compute. discriminate.
Defined.

End VersionTableKeys.

Section GuessOfEqualTables.

Local Open Scope Z_scope.
Local Open Scope list_scope.


Lemma forallb_pointwise {A : Type} (f g : A -> bool) (l : list A) :
  (forall x, f x = g x) -> forallb f l = forallb g l.
Proof.
  intros H. induction l as [ | x l IH]; simpl; [ | rewrite H, IH ]; reflexivity.
Qed.

Section SameAnswers.

Variables t t' : Versions.
Hypothesis same_answers : forall k : nat, lookup t k = lookup t' k.


Lemma matches_prefix_same (b : Versions) :
  matches_prefix t b = matches_prefix t' b.
Proof.
  apply forallb_pointwise. intros k. rewrite same_answers. reflexivity.
Qed.





End SameAnswers.

(** The three flags and equality fit together: a target is equal to a
    baseline exactly when it matches it and has no extra over it. *)
Lemma Equal_matches_no_extra (t b : Versions) :
  well_formed t -> well_formed b ->
  Equal t b = matches_prefix t b && negb (has_extra t b).
Proof.
  intros Ht Hb. apply eq_true_iff_eq.
  rewrite andb_true_iff, negb_true_iff. split.
  - intros He. split.
    + unfold matches_prefix. apply forallb_forall. intros k _.
      rewrite (Equal_lookup t b k He), Z.eqb_refl.
      destruct (0 <=? lookup b k); reflexivity.
    + destruct (has_extra t b) eqn:Hx; [ | reflexivity ].
      apply has_extra_iff in Hx. destruct Hx as [k [_ Hk]].
      rewrite (Equal_lookup t b k He) in Hk. lia.
  - intros [Hm Hx]. apply Equal_of_lookup. intros k.
    pose proof (lookup_lower_bound t k Ht) as Htk.
    pose proof (lookup_lower_bound b k Hb) as Hbk.
    destruct (Z.le_gt_cases 0 (lookup b k)) as [H0 | H0].
    + unfold matches_prefix in Hm. rewrite forallb_forall in Hm.
      assert (Hin : In k (seq 0 (List.length b))).
      { apply in_seq. split; [ lia | ]. apply lookup_set_in_range. lia. }
      specialize (Hm k Hin). rewrite (proj2 (Z.leb_le _ _) H0) in Hm.
      apply Z.eqb_eq, Hm.
    + destruct (Z.le_gt_cases 0 (lookup t k)) as [H1 | H1]; [ | lia ].
      assert (Hx' : has_extra t b = true)
        by (apply has_extra_iff; exists k; lia).
      congruence.
Qed.



End GuessOfEqualTables.
